(** * The Gillespie engine of [gillespie.py], embedded and checked

    [gillespie_simulation] (gillespie.py, lines 3-74) is embedded as a
    function over explicit data:

    - populations are the 64-bit integers of the array that main.py passes
      (line 90): [Z] with the wrap-around of the in-place addition of line 65
      written out;
    - times and propensities are exact rationals ([Q]): the rounding,
      overflow and cancellation of machine floats are not modelled;
    - the process-wide random source of [np.random] is an explicit script of
      raw variates, one [draw] per loop iteration: the standard exponential
      variate that [np.random.exponential] multiplies by its scale, and the
      uniform sample that [np.random.choice] inverts through the cumulative
      distribution;
    - a Python exception is an outcome [Raise e line], [line] being the line
      of gillespie.py that raises;
    - the [while] loop is recursive on the script; a script that is used up
      before the loop ends gives [Pending].

    Of the callers, the parts that compute on the result are embedded too:
    the results table of main.py (lines 104-108) and the opacities of
    plot_multiple_simulations (visualization.py, lines 130-131).  Widgets,
    figures and their layout are not modelled. *)

From Stdlib Require Import ZArith QArith Qabs List Bool Lia Lqa Sorted.
Import ListNotations.

Local Open Scope Q_scope.

(** ** Outcomes of Python code *)

Inductive exn : Type :=
| ZeroDivisionError
| ValueError
| IndexError.

Inductive outcome (A : Type) : Type :=
| Return (a : A)
| Raise (e : exn) (line : nat)
| Pending.

Arguments Return {A} a.
Arguments Raise {A} e line.
Arguments Pending {A}.

Definition bind {A B : Type} (m : outcome A) (k : A -> outcome B) : outcome B :=
  match m with
  | Return a => k a
  | Raise e l => Raise e l
  | Pending => Pending
  end.

Notation "x <- m ;; k" := (bind m (fun x => k))
  (at level 61, m at next level, right associativity).

(** ** Numbers and arrays *)

Definition state : Type := list Z.

Definition Qlt_bool (x y : Q) : bool := negb (Qle_bool y x).

(** [np.sum(propensities)], in exact arithmetic *)
Definition np_sum (v : list Q) : Q := fold_left Qplus v 0.

(** [x / y] on numbers, in exact arithmetic; a zero divisor is the fault of
    line [line]. *)
Definition divide (line : nat) (x y : Q) : outcome Q :=
  if Qeq_bool y 0 then Raise ZeroDivisionError line else Return (x / y).

(** [v / y] on an array and a number (line 61). *)
Definition np_divide (line : nat) (v : list Q) (y : Q) : outcome (list Q) :=
  if Qeq_bool y 0 then Raise ZeroDivisionError line
  else Return (map (fun a => a / y) v).

(** [np.cumsum] *)
Fixpoint cumsum_from (acc : Q) (v : list Q) : list Q :=
  match v with
  | [] => []
  | a :: v' => (acc + a) :: cumsum_from (acc + a) v'
  end.

Definition np_cumsum (v : list Q) : list Q := cumsum_from 0 v.

(** [cdf.searchsorted(u, side='right')] on a non-decreasing [cdf]: the first
    position whose entry is greater than [u]. *)
Fixpoint searchsorted_right (cdf : list Q) (u : Q) : nat :=
  match cdf with
  | [] => O
  | c :: cdf' => if Qle_bool c u then S (searchsorted_right cdf' u) else O
  end.

(** [reactions[reaction_index]] (line 65) *)
Definition getitem (line : nat) (reactions : list (list Z)) (i : nat)
  : outcome (list Z) :=
  match nth_error reactions i with
  | Some row => Return row
  | None => Raise IndexError line
  end.

(** A sum as a signed 64-bit integer keeps it: reduced modulo [2^64] into
    [-2^63, 2^63). *)
Definition wrap_int64 (z : Z) : Z :=
  ((z + 9223372036854775808) mod 18446744073709551616
   - 9223372036854775808)%Z.

Fixpoint add_rows (s row : list Z) : list Z :=
  match s, row with
  | x :: s', y :: row' => wrap_int64 (x + y) :: add_rows s' row'
  | _, _ => []
  end.

(** [current_state += row] (line 65) on 64-bit integer arrays: component-wise
    when the shapes agree, a one-element row is broadcast, any other shape is
    refused; a sum beyond the 64-bit range wraps around. *)
Definition iadd (line : nat) (s row : list Z) : outcome state :=
  if Nat.eqb (length row) (length s) then Return (add_rows s row)
  else match row with
       | [y] => Return (map (fun x => wrap_int64 (x + y)) s)
       | _ => Raise ValueError line
       end.

(** [np.maximum(current_state, 0)] (line 68) *)
Definition np_maximum (s : state) (floor : Z) : state := map (fun x => Z.max x floor) s.

(** ** The random source *)

Record draw : Type := mkDraw {
  variate : Q;   (* standard exponential variate, used by line 48 *)
  uniform : Q    (* uniform sample of [0,1), used by line 62 *)
}.

Definition valid_draw (d : draw) : bool :=
  Qle_bool 0 (variate d) && Qle_bool 0 (uniform d) && Qlt_bool (uniform d) 1.

(** [np.random.exponential(scale=scale)]: a negative scale is refused,
    otherwise the standard variate is scaled. *)
Definition np_random_exponential (line : nat) (scale : Q) (d : draw) : outcome Q :=
  if Qlt_bool scale 0 then Raise ValueError line
  else Return (scale * variate d).

(** [np.random.choice(n, p=p)]: an empty population, a [p] of another size,
    negative probabilities and probabilities that do not sum to one are
    refused; otherwise the uniform sample is inverted through the normalised
    cumulative sums. *)
Definition np_random_choice (line : nat) (n : nat) (p : list Q) (d : draw)
  : outcome nat :=
  if Nat.eqb n 0 then Raise ValueError line
  else if negb (Nat.eqb (length p) n) then Raise ValueError line
  else if existsb (fun a => Qlt_bool a 0) p then Raise ValueError line
  else if negb (Qeq_bool (np_sum p) 1) then Raise ValueError line
  else
    let cdf := np_cumsum p in
    let cdf := map (fun c => c / last cdf 0) cdf in
    Return (searchsorted_right cdf (uniform d)).

(** ** The simulation *)

(** Which exit of the loop ended the run: the [while] test of line 36, the
    [break] of line 45 or the [break] of line 55. *)
Inductive exit : Type :=
| HorizonReached
| Absorbed
| Truncated.

Definition trace : Type := (list Q * list state)%type.

Section Engine.

Variable propensity_func : state -> list Q.
Variable reactions : list (list Z).
Variable max_time : Q.

(** Lines 36-72; [times] and [populations] are the two Python lists. *)
Fixpoint loop (draws : list draw) (current_time : Q) (current_state : state)
  (times : list Q) (populations : list state) {struct draws}
  : outcome (exit * trace) :=
  if negb (Qlt_bool current_time max_time) then
    Return (HorizonReached, (times, populations))
  else
    let propensities := propensity_func current_state in
    let propensity_sum := np_sum propensities in
    if Qeq_bool propensity_sum 0 then
      Return (Absorbed, (times, populations))
    else
      match draws with
      | [] => Pending
      | d :: draws' =>
          scale <- divide 48 1 propensity_sum ;;
          time_step <- np_random_exponential 48 scale d ;;
          if Qlt_bool max_time (current_time + time_step) then
            let current_time := max_time in
            Return (Truncated,
                    (times ++ [current_time], populations ++ [current_state]))
          else
            let current_time := current_time + time_step in
            reaction_probs <- np_divide 61 propensities propensity_sum ;;
            reaction_index <-
              np_random_choice 62 (length propensities) reaction_probs d ;;
            row <- getitem 65 reactions reaction_index ;;
            current_state <- iadd 65 current_state row ;;
            let current_state := np_maximum current_state 0 in
            loop draws' current_time current_state
                 (times ++ [current_time]) (populations ++ [current_state])
      end.

(** Lines 27-30 and the loop, with the exit that was taken. *)
Definition gillespie_run (initial_state : state) (draws : list draw)
  : outcome (exit * trace) :=
  let times := [0] in
  let current_state := initial_state in
  let populations := [current_state] in
  let current_time := 0 in
  loop draws current_time current_state times populations.

(** [gillespie_simulation]: the pair [(times, populations)] of line 74. *)
Definition gillespie_simulation (initial_state : state) (draws : list draw)
  : outcome trace :=
  r <- gillespie_run initial_state draws ;; Return (snd r).

(** One completed iteration of the loop body (lines 38-72) that fires a
    reaction: from time [t] and state [s] to time [t'] and state [s']. *)
Inductive fires (d : draw) (t : Q) (s : state) (t' : Q) (s' : state) : Prop :=
| fires_intro (idx : nat) (row : list Z) (s1 : state)
    (Hsum : ~ np_sum (propensity_func s) == 0)
    (Hscale : 0 <= 1 / np_sum (propensity_func s))
    (Htime : t' = t + (1 / np_sum (propensity_func s)) * variate d)
    (Hin : t' <= max_time)
    (Hidx : np_random_choice 62 (length (propensity_func s))
              (map (fun a => a / np_sum (propensity_func s)) (propensity_func s)) d
            = Return idx)
    (Hrow : nth_error reactions idx = Some row)
    (Hadd : iadd 65 s row = Return s1)
    (Hmax : s' = np_maximum s1 0).

(** The runs of the loop that end, as a relation. *)
Inductive runs : list draw -> Q -> state -> list Q -> list state
                 -> exit * trace -> Prop :=
| runs_horizon draws t s ts ps :
    ~ t < max_time ->
    runs draws t s ts ps (HorizonReached, (ts, ps))
| runs_absorbed draws t s ts ps :
    t < max_time ->
    np_sum (propensity_func s) == 0 ->
    runs draws t s ts ps (Absorbed, (ts, ps))
| runs_truncated d draws t s ts ps :
    t < max_time ->
    ~ np_sum (propensity_func s) == 0 ->
    0 <= 1 / np_sum (propensity_func s) ->
    max_time < t + (1 / np_sum (propensity_func s)) * variate d ->
    runs (d :: draws) t s ts ps (Truncated, (ts ++ [max_time], ps ++ [s]))
| runs_fires d draws t s ts ps t' s' r :
    t < max_time ->
    fires d t s t' s' ->
    runs draws t' s' (ts ++ [t']) (ps ++ [s']) r ->
    runs (d :: draws) t s ts ps r.

End Engine.

(** The trajectory of the spec: the two sequences zipped. *)
Definition trajectory (tr : trace) : list (Q * state) := combine (fst tr) (snd tr).

(** The random source as an unbounded stream, and its first [n] draws. *)
Definition script (rs : nat -> draw) (n : nat) : list draw := map rs (seq 0 n).

(** ** Properties of a returned trace *)

(** The trajectory starts with [(0, initial_state)] and its last time is at
    most the horizon. *)
Definition starts_and_stays (max_time : Q) (initial_state : state) (tr : trace)
  : Prop :=
  (exists rest, trajectory tr = (0, initial_state) :: rest)
  /\ last (fst tr) 0 <= max_time.

(** The last entry but one, and the last entry, of a sequence. *)
Definition penultimate {A : Type} (l : list A) : option A :=
  match rev l with
  | _ :: x :: _ => Some x
  | _ => None
  end.

Definition final {A : Type} (l : list A) : option A :=
  match rev l with
  | x :: _ => Some x
  | [] => None
  end.

(** The times are non-decreasing, start at 0 and stay within the horizon. *)
Definition times_ordered (max_time : Q) (tr : trace) : Prop :=
  StronglySorted Qle (fst tr)
  /\ hd_error (fst tr) = Some 0
  /\ Forall (fun t => t <= max_time) (fst tr).

Definition nonneg_state (s : state) : Prop := Forall (fun x => (0 <= x)%Z) s.

(** [later - earlier], component-wise. *)
Fixpoint sub_rows (later earlier : list Z) : list Z :=
  match later, earlier with
  | x :: l', y :: e' => (x - y)%Z :: sub_rows l' e'
  | _, _ => []
  end.

(** [earlier + row] as the integers have it, component-wise. *)
Fixpoint plus_rows (earlier row : list Z) : list Z :=
  match earlier, row with
  | x :: e', y :: r' => (x + y)%Z :: plus_rows e' r'
  | _, _ => []
  end.

(** A count that a signed 64-bit integer holds and the floor of line 68
    leaves alone. *)
Definition count_in_range (z : Z) : Prop :=
  (0 <= z < 9223372036854775808)%Z.

(** What lines 65-68 make of [earlier] with one row of the table. *)
Definition reaction_applied (reactions : list (list Z)) (earlier later : state)
  : Prop :=
  exists row s1,
    In row reactions /\ iadd 65 earlier row = Return s1
    /\ later = np_maximum s1 0.

(** ** An instance for the examples

    The predator-prey model of the spec's scenarios: prey birth, predation and
    predator death, with rates 1, 1/10 and 1. *)

Definition predator_prey_propensities (s : state) : list Q :=
  match s with
  | [prey; predator] =>
      [inject_Z prey; (1 # 10) * inject_Z prey * inject_Z predator;
       inject_Z predator]
  | _ => []
  end.

Definition predator_prey_reactions : list (list Z) :=
  [[1; 0]; [-1; 1]; [0; -1]]%Z.

(** Two scripts of draws for the examples. *)
Definition three_draws : list draw :=
  [mkDraw (1 # 2) (1 # 2); mkDraw 1 (9 # 10); mkDraw 10 0].

Definition exact_hit : list draw := [mkDraw 1 0].

(** A model whose rate does not vanish on an empty population, so that the
    floor of line 68 comes into play, and two scripts for it. *)
Definition steady_propensities (s : state) : list Q := [1].

Definition decay_reactions : list (list Z) := [[-1]]%Z.

Definition two_draws : list draw := [mkDraw (1 # 2) 0; mkDraw 1 0].

(** A model with two channels and a table of one row, with a script that
    selects the first channel and one that selects the second. *)
Definition twin_propensities (s : state) : list Q := [1; 1].

Definition growth_reactions : list (list Z) := [[1]]%Z.

Definition first_channel_draws : list draw := [mkDraw 1 0; mkDraw 2 0].

Definition second_channel_draw : draw := mkDraw 1 (1 # 2).

(** The stream that replays a list of draws. *)
Definition replay (l : list draw) (k : nat) : draw := nth k l (mkDraw 1 0).

(** ** The returned arrays *)

(** The returned [populations] as the two-dimensional array that line 74
    builds: as many rows as [times] has entries, [n] columns each. *)
Definition rectangular (n : nat) (tr : trace) : Prop :=
  length (fst tr) = length (snd tr)
  /\ Forall (fun s => length s = n) (snd tr).

(** [later] comes from [earlier] by lines 65-68 through a channel whose
    propensity at [earlier] is positive. *)
Definition channel_fired (propensity_func : state -> list Q)
  (reactions : list (list Z)) (earlier later : state) : Prop :=
  exists idx row s1,
    0 < nth idx (propensity_func earlier) 0
    /\ nth_error reactions idx = Some row
    /\ iadd 65 earlier row = Return s1
    /\ later = np_maximum s1 0.

(** The entries of a returned trace that record the start or a reaction: all
    of them but the point that horizon truncation appends. *)
Definition events (e : exit) (tr : trace) : trace :=
  match e with
  | Truncated => (removelast (fst tr), removelast (snd tr))
  | _ => tr
  end.

(** [tr'] continues [tr]. *)
Definition extends (tr tr' : trace) : Prop :=
  exists dts dps, fst tr' = fst tr ++ dts /\ snd tr' = snd tr ++ dps.

(** ** The callers: main.py and visualization.py *)

(** The table that main.py builds from one run (lines 104-108): the columns
    [Time], [Prey] and [Predator]. *)
Record frame : Type := mkFrame {
  Time : list Q;
  Prey : list Z;
  Predator : list Z
}.

Fixpoint column (line : nat) (populations : list state) (j : nat)
  : outcome (list Z) :=
  match populations with
  | [] => Return []
  | s :: rest =>
      match nth_error s j with
      | Some x => xs <- column line rest j ;; Return (x :: xs)
      | None => Raise IndexError line
      end
  end.

(** [populations[:, j]]: column [j] of the two-dimensional array; an array
    without rows has no second axis. *)
Definition getcolumn (line : nat) (populations : list state) (j : nat)
  : outcome (list Z) :=
  match populations with
  | [] => Raise IndexError line
  | _ :: _ => column line populations j
  end.

(** [pd.DataFrame({...})]: the columns must have one length. *)
Definition DataFrame (line : nat) (time : list Q) (prey predator : list Z)
  : outcome frame :=
  if Nat.eqb (length prey) (length time)
     && Nat.eqb (length predator) (length time)
  then Return (mkFrame time prey predator)
  else Raise ValueError line.

(** main.py, lines 104-108, on the pair that [gillespie_simulation]
    returned. *)
Definition results_frame (tr : trace) : outcome frame :=
  let times := fst tr in
  let populations := snd tr in
  prey <- getcolumn 106 populations 0 ;;
  predator <- getcolumn 107 populations 1 ;;
  DataFrame 104 times prey predator.

(** The opacity that line 131 of visualization.py splices into the colour of
    run [i]: [0.5 + 0.5 * i / num_simulations]. *)
Definition opacity (num_simulations i : nat) : outcome Q :=
  q <- divide 131 ((1 # 2) * inject_Z (Z.of_nat i))
         (inject_Z (Z.of_nat num_simulations)) ;;
  Return ((1 # 2) + q).

Fixpoint for_each {A B : Type} (f : A -> outcome B) (l : list A)
  : outcome (list B) :=
  match l with
  | [] => Return []
  | a :: l' => b <- f a ;; bs <- for_each f l' ;; Return (b :: bs)
  end.

(** The list comprehension of line 131, over [range(num_simulations)]. *)
Definition colors (num_simulations : nat) : outcome (list Q) :=
  for_each (opacity num_simulations) (seq 0 num_simulations).

(** ** Comparisons *)

Lemma Qlt_bool_true (x y : Q) : Qlt_bool x y = true <-> x < y.
Proof.
  unfold Qlt_bool. rewrite negb_true_iff.
  split; intro H.
  - apply Qnot_le_lt. intro Hle. apply Qle_bool_iff in Hle. congruence.
  - destruct (Qle_bool y x) eqn:E; [|reflexivity].
    apply Qle_bool_iff in E. exfalso. exact (Qlt_not_le _ _ H E).
Qed.

Lemma Qlt_bool_false (x y : Q) : Qlt_bool x y = false <-> y <= x.
Proof.
  unfold Qlt_bool. rewrite negb_false_iff. apply Qle_bool_iff.
Qed.

Lemma Qeq_bool_false (x y : Q) : Qeq_bool x y = false <-> ~ x == y.
Proof.
  split; intro H.
  - intro E. apply Qeq_bool_iff in E. congruence.
  - destruct (Qeq_bool x y) eqn:E; [|reflexivity].
    apply Qeq_bool_iff in E. contradiction.
Qed.

(** ** The loop and its relation *)

Section LoopFacts.

Variable propensity_func : state -> list Q.
Variable reactions : list (list Z).
Variable max_time : Q.

Local Abbreviation loop := (loop propensity_func reactions max_time).
Local Abbreviation runs := (runs propensity_func reactions max_time).
Local Abbreviation fires := (fires propensity_func reactions max_time).

Lemma loop_eq draws t s ts ps :
  loop draws t s ts ps =
  if negb (Qlt_bool t max_time) then Return (HorizonReached, (ts, ps))
  else if Qeq_bool (np_sum (propensity_func s)) 0 then Return (Absorbed, (ts, ps))
  else match draws with
       | [] => Pending
       | d :: draws' =>
           scale <- divide 48 1 (np_sum (propensity_func s)) ;;
           time_step <- np_random_exponential 48 scale d ;;
           if Qlt_bool max_time (t + time_step) then
             Return (Truncated, (ts ++ [max_time], ps ++ [s]))
           else
             reaction_probs <-
               np_divide 61 (propensity_func s) (np_sum (propensity_func s)) ;;
             reaction_index <-
               np_random_choice 62 (length (propensity_func s)) reaction_probs d ;;
             row <- getitem 65 reactions reaction_index ;;
             s1 <- iadd 65 s row ;;
             loop draws' (t + time_step) (np_maximum s1 0)
                  (ts ++ [t + time_step]) (ps ++ [np_maximum s1 0])
       end.
Proof. destruct draws; reflexivity. Qed.

(** The function ends with [r] exactly when the relation holds. *)
Lemma loop_runs draws : forall t s ts ps r,
  loop draws t s ts ps = Return r -> runs draws t s ts ps r.
Proof.
  induction draws as [|d draws IH]; intros t s ts ps r H; rewrite loop_eq in H.
  - destruct (Qlt_bool t max_time) eqn:Ht; cbn [negb] in H.
    + destruct (Qeq_bool (np_sum (propensity_func s)) 0) eqn:Hs.
      * injection H as <-. apply runs_absorbed.
        -- now apply Qlt_bool_true.
        -- now apply Qeq_bool_iff.
      * discriminate.
    + injection H as <-. apply runs_horizon.
      intro Hlt. apply Qlt_bool_true in Hlt. congruence.
  - destruct (Qlt_bool t max_time) eqn:Ht; cbn [negb] in H.
    2:{ injection H as <-. apply runs_horizon.
        intro Hlt. apply Qlt_bool_true in Hlt. congruence. }
    apply Qlt_bool_true in Ht.
    destruct (Qeq_bool (np_sum (propensity_func s)) 0) eqn:Hs.
    { injection H as <-. apply runs_absorbed; [assumption|now apply Qeq_bool_iff]. }
    unfold divide, np_divide in H. rewrite Hs in H. cbn [bind] in H.
    unfold np_random_exponential in H.
    destruct (Qlt_bool (1 / np_sum (propensity_func s)) 0) eqn:Hsc; cbn [bind] in H;
      [discriminate|].
    apply Qlt_bool_false in Hsc. apply Qeq_bool_false in Hs.
    destruct (Qlt_bool max_time _) eqn:Hcut in H.
    { injection H as <-. apply Qlt_bool_true in Hcut.
      now apply runs_truncated. }
    apply Qlt_bool_false in Hcut.
    destruct (np_random_choice _ _ _ _) as [idx| |] eqn:Hidx in H; cbn [bind] in H;
      try discriminate.
    unfold getitem in H.
    destruct (nth_error reactions idx) as [row|] eqn:Hrow; cbn [bind] in H;
      try discriminate.
    destruct (iadd 65 s row) as [s1| |] eqn:Hadd; cbn [bind] in H; try discriminate.
    eapply runs_fires; [assumption| |apply IH; exact H].
    econstructor; eauto.
Qed.

Lemma runs_loop draws t s ts ps r :
  runs draws t s ts ps r -> loop draws t s ts ps = Return r.
Proof.
  induction 1 as [draws t s ts ps Ht | draws t s ts ps Ht Hs
                 | d draws t s ts ps Ht Hs Hsc Hcut
                 | d draws t s ts ps t1 s1 r Ht Hf Hr IH];
    rewrite loop_eq.
  - destruct (Qlt_bool t max_time) eqn:E; [|reflexivity].
    apply Qlt_bool_true in E. contradiction.
  - apply Qlt_bool_true in Ht. rewrite Ht. cbn [negb].
    apply Qeq_bool_iff in Hs. now rewrite Hs.
  - apply Qlt_bool_true in Ht. rewrite Ht. cbn [negb].
    apply Qeq_bool_false in Hs. unfold divide. rewrite Hs. cbn [bind].
    unfold np_random_exponential.
    apply Qlt_bool_false in Hsc. rewrite Hsc. cbn [bind].
    apply Qlt_bool_true in Hcut. now rewrite Hcut.
  - destruct Hf as [idx row s2 Hsum Hscale Htime Hin Hidx Hrow Hadd Hmax].
    apply Qlt_bool_true in Ht. rewrite Ht. cbn [negb].
    apply Qeq_bool_false in Hsum. unfold divide, np_divide. rewrite Hsum.
    cbn [bind]. unfold np_random_exponential.
    apply Qlt_bool_false in Hscale. rewrite Hscale. cbn [bind].
    rewrite <- Htime. apply Qlt_bool_false in Hin. rewrite Hin.
    rewrite Hidx. cbn [bind]. unfold getitem. rewrite Hrow. cbn [bind].
    rewrite Hadd. cbn [bind]. rewrite <- Hmax. exact IH.
Qed.

End LoopFacts.

(** ** Shape of the returned trace *)

Section TraceFacts.

Variable propensity_func : state -> list Q.
Variable reactions : list (list Z).
Variable max_time : Q.

Local Abbreviation loop := (loop propensity_func reactions max_time).
Local Abbreviation runs := (runs propensity_func reactions max_time).

(** A run only appends, and appends as many times as states. *)
Lemma runs_appends draws t s ts ps e ts' ps' :
  runs draws t s ts ps (e, (ts', ps')) ->
  exists dts dps,
    ts' = ts ++ dts /\ ps' = ps ++ dps /\ length dts = length dps.
Proof.
  intro H. remember (e, (ts', ps')) as r eqn:Er.
  induction H as [draws t s ts ps Ht | draws t s ts ps Ht Hs
                 | d draws t s ts ps Ht Hs Hsc Hcut
                 | d draws t s ts ps t1 s1 r Ht Hf Hr IH].
  - injection Er as <- <- <-. exists [], []. now rewrite !app_nil_r.
  - injection Er as <- <- <-. exists [], []. now rewrite !app_nil_r.
  - injection Er as <- <- <-. now exists [max_time], [s].
  - destruct (IH Er) as (dts & dps & -> & -> & Hlen).
    exists (t1 :: dts), (s1 :: dps). rewrite <- !app_assoc. cbn.
    repeat split; congruence.
Qed.

(** The last recorded time is the current one; at the end it is within the
    horizon. *)
Lemma runs_last_le draws t s ts ps e ts' ps' :
  runs draws t s ts ps (e, (ts', ps')) ->
  last ts 0 = t -> t <= max_time ->
  last ts' 0 <= max_time.
Proof.
  intro H. remember (e, (ts', ps')) as r eqn:Er.
  induction H as [draws t s ts ps Ht | draws t s ts ps Ht Hs
                 | d draws t s ts ps Ht Hs Hsc Hcut
                 | d draws t s ts ps t1 s1 r Ht Hf Hr IH];
    intros Lt Hle.
  - injection Er as <- <- <-. now rewrite Lt.
  - injection Er as <- <- <-. now rewrite Lt.
  - injection Er as <- <- <-. rewrite last_last. apply Qle_refl.
  - apply (IH Er); [apply last_last|]. now destruct Hf.
Qed.

(** A run that stops short of the horizon stops on a state whose
    propensities sum to zero. *)
Lemma runs_stops_short draws t s ts ps e ts' ps' :
  runs draws t s ts ps (e, (ts', ps')) ->
  last ts 0 = t -> last ps [] = s ->
  last ts' 0 < max_time ->
  np_sum (propensity_func (last ps' [])) == 0.
Proof.
  intro H. remember (e, (ts', ps')) as r eqn:Er.
  induction H as [draws t s ts ps Ht | draws t s ts ps Ht Hs
                 | d draws t s ts ps Ht Hs Hsc Hcut
                 | d draws t s ts ps t1 s1 r Ht Hf Hr IH];
    intros Lt Ls Hlt.
  - injection Er as <- <- <-. rewrite Lt in Hlt. contradiction.
  - injection Er as <- <- <-. now rewrite Ls.
  - injection Er as <- <- <-. rewrite last_last in Hlt.
    exfalso. exact (Qlt_irrefl _ Hlt).
  - apply (IH Er); try apply last_last. assumption.
Qed.

(** A run that ends in the truncation branch appends the horizon and a second
    copy of the last recorded state. *)
Lemma runs_truncated_shape draws t s ts ps ts' ps' :
  runs draws t s ts ps (Truncated, (ts', ps')) ->
  last ps [] = s -> ps <> [] ->
  exists ts0 ps0 s', ts' = ts0 ++ [max_time] /\ ps' = ps0 ++ [s'; s'].
Proof.
  intro H. remember (Truncated, (ts', ps')) as r eqn:Er.
  induction H as [draws t s ts ps Ht | draws t s ts ps Ht Hs
                 | d draws t s ts ps Ht Hs Hsc Hcut
                 | d draws t s ts ps t1 s1 r Ht Hf Hr IH];
    intros Ls Hne; try discriminate.
  - injection Er as <- <-.
    destruct (exists_last Hne) as (ps0 & x & ->).
    rewrite last_last in Ls. subst x.
    exists ts, ps0, s. split; [reflexivity|]. now rewrite <- app_assoc.
  - apply (IH Er); [apply last_last|].
    intro E. now destruct ps.
Qed.

(** Every recorded state is non-negative when the initial one is. *)
Lemma runs_nonneg draws t s ts ps e ts' ps' :
  runs draws t s ts ps (e, (ts', ps')) ->
  nonneg_state s -> Forall nonneg_state ps ->
  Forall nonneg_state ps'.
Proof.
  intro H. remember (e, (ts', ps')) as r eqn:Er.
  induction H as [draws t s ts ps Ht | draws t s ts ps Ht Hs
                 | d draws t s ts ps Ht Hs Hsc Hcut
                 | d draws t s ts ps t1 s1 r Ht Hf Hr IH];
    intros Hs0 Hps.
  - now injection Er as <- <- <-.
  - now injection Er as <- <- <-.
  - injection Er as <- <- <-. apply Forall_app. split; [assumption|].
    now constructor.
  - assert (Hs1 : nonneg_state s1).
    { destruct Hf as [idx row s2 _ _ _ _ _ _ _ ->].
      unfold nonneg_state, np_maximum. apply Forall_map.
      apply Forall_forall. intros x _. apply Z.le_max_r. }
    apply (IH Er); [assumption|].
    apply Forall_app. split; [assumption|]. now constructor.
Qed.

Lemma run_of_simulation initial_state draws tr :
  gillespie_simulation propensity_func reactions max_time initial_state draws
  = Return tr ->
  exists e,
    gillespie_run propensity_func reactions max_time initial_state draws
    = Return (e, tr).
Proof.
  unfold gillespie_simulation.
  destruct (gillespie_run _ _ _ initial_state draws) as [[e tr']| |]; cbn;
    intro H; try discriminate.
  injection H as <-. now exists e.
Qed.

End TraceFacts.

(** ** Start, horizon and stops of a run *)

(** C1, as amended: for every initial state, propensity function,
    stoichiometry table and horizon that is not negative, the returned
    trajectory is non-empty, its first entry is exactly [(0, initial_state)]
    and its last time is at most the horizon. *)
Theorem C1_starts_at_origin_within_horizon
  (propensity_func : state -> list Q) (reactions : list (list Z))
  (max_time : Q) (initial_state : state) (draws : list draw) (tr : trace) :
  0 <= max_time ->
  gillespie_simulation propensity_func reactions max_time initial_state draws
  = Return tr ->
  starts_and_stays max_time initial_state tr.
Proof.
  intros Hmax H.
  destruct (run_of_simulation _ _ _ _ _ _ H) as [e Hrun].
  apply loop_runs in Hrun. destruct tr as [ts' ps'].
  split.
  - destruct (runs_appends _ _ _ _ _ _ _ _ _ _ _ Hrun)
      as (dts & dps & -> & -> & _).
    now exists (combine dts dps).
  - now apply (runs_last_le _ _ _ _ _ _ _ _ _ _ _ Hrun).
Qed.

Lemma C1_witness :
  starts_and_stays 1 [2; 1]%Z
    ([0; 10 # 64; 1070 # 2752; 1],
     [[2; 1]; [3; 1]; [3; 0]; [3; 0]]%Z).
Proof.
  apply (C1_starts_at_origin_within_horizon predator_prey_propensities
           predator_prey_reactions 1 [2; 1]%Z three_draws).
  - unfold Qle; simpl; lia.
  - reflexivity.
Defined.

(** C1 as stated fails for a negative horizon: the single recorded time 0 is
    beyond the horizon -1. *)
Lemma C1_negative_horizon_counterexample :
  exists tr,
    gillespie_simulation predator_prey_propensities predator_prey_reactions
      (-1) [2; 1]%Z three_draws = Return tr
    /\ ~ starts_and_stays (-1) [2; 1]%Z tr.
Proof.
  exists ([0], [[2; 1]%Z]). split; [reflexivity|].
  intros [_ Hlast]. cbn in Hlast. unfold Qle in Hlast. simpl in Hlast. lia.
Qed.

(** C2: when the propensity sum at the current state is zero the loop stops
    and returns the two lists as they are, nothing appended; and a returned
    trajectory whose last time is strictly below the horizon ends on a state
    whose propensities sum to zero. *)
Theorem C2_absorption
  (propensity_func : state -> list Q) (reactions : list (list Z))
  (max_time : Q) :
  (forall draws t s ts ps,
      np_sum (propensity_func s) == 0 ->
      loop propensity_func reactions max_time draws t s ts ps
      = Return (if Qlt_bool t max_time then Absorbed else HorizonReached,
                (ts, ps)))
  /\ (forall initial_state draws tr,
         gillespie_simulation propensity_func reactions max_time
           initial_state draws = Return tr ->
         last (fst tr) 0 < max_time ->
         np_sum (propensity_func (last (snd tr) [])) == 0).
Proof.
  split.
  - intros draws t s ts ps Hs. rewrite loop_eq.
    destruct (Qlt_bool t max_time); cbn [negb]; [|reflexivity].
    apply Qeq_bool_iff in Hs. now rewrite Hs.
  - intros initial_state draws tr H Hlt.
    destruct (run_of_simulation _ _ _ _ _ _ H) as [e Hrun].
    apply loop_runs in Hrun. destruct tr as [ts' ps'].
    now apply (runs_stops_short _ _ _ _ _ _ _ _ _ _ _ Hrun).
Qed.

Lemma C2_witness :
  loop predator_prey_propensities predator_prey_reactions 5 three_draws
    (500 # 400) [0; 0]%Z [0; 10 # 40; 500 # 400] [[0; 2]; [0; 1]; [0; 0]]%Z
  = Return (Absorbed,
            ([0; 10 # 40; 500 # 400], [[0; 2]; [0; 1]; [0; 0]]%Z))
  /\ np_sum (predator_prey_propensities [0; 0]%Z) == 0.
Proof.
  split.
  - apply (proj1 (C2_absorption predator_prey_propensities
                    predator_prey_reactions 5) three_draws (500 # 400)
                 [0; 0]%Z).
    reflexivity.
  - apply (proj2 (C2_absorption predator_prey_propensities
                    predator_prey_reactions 5) [0; 2]%Z three_draws
                 ([0; 10 # 40; 500 # 400], [[0; 2]; [0; 1]; [0; 0]]%Z)).
    + reflexivity.
    + reflexivity.
Defined.

(** C3, as amended: whenever the run stops in the truncation branch (the
    sampled waiting time would carry the clock strictly beyond the horizon),
    the last entry is [(horizon, s)] with [s] the state of the entry before
    it. *)
Theorem C3_truncation_keeps_state
  (propensity_func : state -> list Q) (reactions : list (list Z))
  (max_time : Q) (initial_state : state) (draws : list draw) (tr : trace) :
  gillespie_run propensity_func reactions max_time initial_state draws
  = Return (Truncated, tr) ->
  final (fst tr) = Some max_time
  /\ exists s, penultimate (snd tr) = Some s /\ final (snd tr) = Some s.
Proof.
  intro Hrun. apply loop_runs in Hrun. destruct tr as [ts' ps'].
  destruct (runs_truncated_shape _ _ _ _ _ _ _ _ _ _ Hrun)
    as (ts0 & ps0 & s & -> & ->); [reflexivity|discriminate|].
  unfold final, penultimate. cbn [fst snd]. rewrite !rev_app_distr. cbn.
  split; [reflexivity|]. now exists s.
Qed.

Lemma C3_witness :
  final (fst ([0; 10 # 64; 1070 # 2752; 1],
              [[2; 1]; [3; 1]; [3; 0]; [3; 0]]%Z)) = Some 1
  /\ exists s,
      penultimate [[2; 1]; [3; 1]; [3; 0]; [3; 0]]%Z = Some s
      /\ final [[2; 1]; [3; 1]; [3; 0]; [3; 0]]%Z = Some s.
Proof.
  apply (C3_truncation_keeps_state predator_prey_propensities
           predator_prey_reactions 1 [2; 1]%Z three_draws
           ([0; 10 # 64; 1070 # 2752; 1],
            [[2; 1]; [3; 1]; [3; 0]; [3; 0]]%Z)).
  reflexivity.
Defined.

(** C3 as stated fails when a reaction fires at a time equal to the horizon:
    the trajectory ends at exactly the horizon and its last two states
    differ. *)
Lemma C3_exact_hit_counterexample :
  exists tr,
    gillespie_simulation predator_prey_propensities predator_prey_reactions
      1 [1; 0]%Z exact_hit = Return tr
    /\ last (fst tr) 0 == 1
    /\ penultimate (snd tr) <> final (snd tr).
Proof.
  exists ([0; 10 # 10], [[1; 0]; [2; 0]]%Z).
  split; [reflexivity|]. split; [reflexivity|]. cbn. discriminate.
Qed.

(** C7: for every non-negative initial state, every state recorded in the
    returned trajectory has all its components at least 0. *)
Theorem C7_states_nonnegative
  (propensity_func : state -> list Q) (reactions : list (list Z))
  (max_time : Q) (initial_state : state) (draws : list draw) (tr : trace) :
  nonneg_state initial_state ->
  gillespie_simulation propensity_func reactions max_time initial_state draws
  = Return tr ->
  Forall nonneg_state (snd tr).
Proof.
  intros Hinit H.
  destruct (run_of_simulation _ _ _ _ _ _ H) as [e Hrun].
  apply loop_runs in Hrun. destruct tr as [ts' ps'].
  apply (runs_nonneg _ _ _ _ _ _ _ _ _ _ _ Hrun); [assumption|].
  now constructor.
Qed.

Lemma C7_witness :
  Forall nonneg_state (snd ([0; 10 # 64; 1070 # 2752; 1],
                            [[2; 1]; [3; 1]; [3; 0]; [3; 0]]%Z)).
Proof.
  apply (C7_states_nonnegative predator_prey_propensities
           predator_prey_reactions 1 [2; 1]%Z three_draws).
  - repeat constructor; lia.
  - reflexivity.
Defined.

(** C8: for every horizon that is at most 0 the loop body is never entered
    and the result is the single-point trajectory [[(0, initial_state)]], a
    normal return. *)
Theorem C8_nonpositive_horizon
  (propensity_func : state -> list Q) (reactions : list (list Z))
  (max_time : Q) (initial_state : state) (draws : list draw) :
  max_time <= 0 ->
  gillespie_run propensity_func reactions max_time initial_state draws
  = Return (HorizonReached, ([0], [initial_state]))
  /\ gillespie_simulation propensity_func reactions max_time initial_state draws
     = Return ([0], [initial_state]).
Proof.
  intro Hmax.
  assert (Hrun : gillespie_run propensity_func reactions max_time
                   initial_state draws
                 = Return (HorizonReached, ([0], [initial_state]))).
  { unfold gillespie_run. rewrite loop_eq.
    apply Qlt_bool_false in Hmax. now rewrite Hmax. }
  split; [exact Hrun|].
  unfold gillespie_simulation. now rewrite Hrun.
Qed.

Lemma C8_witness :
  gillespie_run predator_prey_propensities predator_prey_reactions (-1)
    [2; 1]%Z three_draws
  = Return (HorizonReached, ([0], [[2; 1]%Z]))
  /\ gillespie_simulation predator_prey_propensities predator_prey_reactions
       (-1) [2; 1]%Z three_draws
     = Return ([0], [[2; 1]%Z]).
Proof.
  apply (C8_nonpositive_horizon predator_prey_propensities
           predator_prey_reactions (-1) [2; 1]%Z three_draws).
  unfold Qle; simpl; lia.
Defined.

(** ** No division by zero *)

Lemma loop_no_zero_division
  (propensity_func : state -> list Q) (reactions : list (list Z))
  (max_time : Q) (draws : list draw) :
  forall t s ts ps line,
    loop propensity_func reactions max_time draws t s ts ps
    <> Raise ZeroDivisionError line.
Proof.
  induction draws as [|d draws IH]; intros t s ts ps line; rewrite loop_eq.
  - destruct (negb _); [discriminate|].
    destruct (Qeq_bool _ _); discriminate.
  - destruct (negb _); [discriminate|].
    unfold divide, np_divide.
    destruct (Qeq_bool _ _); [discriminate|]. cbn [bind].
    unfold np_random_exponential.
    destruct (Qlt_bool (1 / _) 0); cbn [bind]; [discriminate|].
    destruct (Qlt_bool max_time _); [discriminate|].
    unfold np_random_choice.
    destruct (Nat.eqb _ 0); cbn [bind]; [discriminate|].
    destruct (negb (Nat.eqb _ _)); cbn [bind]; [discriminate|].
    destruct (existsb _ _); cbn [bind]; [discriminate|].
    destruct (negb (Qeq_bool _ 1)); cbn [bind]; [discriminate|].
    unfold getitem.
    destruct (nth_error _ _) as [row|]; cbn [bind]; [|discriminate].
    unfold iadd.
    destruct (Nat.eqb _ _); cbn [bind]; [apply IH|].
    destruct row as [|y [|z row]]; cbn [bind]; try discriminate. apply IH.
Qed.

(** C10: the division [1 / propensity_sum] of line 48 is evaluated only
    where the test [propensity_sum == 0] of line 44 has failed, so no input
    and no random stream makes the run divide by zero. *)
Theorem C10_no_division_by_zero
  (propensity_func : state -> list Q) (reactions : list (list Z))
  (max_time : Q) (initial_state : state) (draws : list draw) (line : nat) :
  gillespie_simulation propensity_func reactions max_time initial_state draws
  <> Raise ZeroDivisionError line.
Proof.
  unfold gillespie_simulation, gillespie_run.
  pose proof (loop_no_zero_division propensity_func reactions max_time draws
                0 initial_state [0] [initial_state] line) as Hloop.
  destruct (loop _ _ _ _ _ _ _ _) as [r|e l|]; cbn [bind];
    [discriminate| |discriminate].
  intro E. injection E as -> ->. now apply Hloop.
Qed.

(** ** Order of the recorded times *)

Lemma StronglySorted_snoc {A : Type} (R : A -> A -> Prop) (l : list A) (y : A) :
  StronglySorted R l -> Forall (fun x => R x y) l ->
  StronglySorted R (l ++ [y]).
Proof.
  induction 1 as [|a l Hl IH Ha]; intro Hy; cbn.
  - repeat constructor.
  - inversion Hy; subst. constructor.
    + now apply IH.
    + apply Forall_app. split; [assumption|]. now constructor.
Qed.

Lemma Forall_le_trans (l : list Q) (a b : Q) :
  Forall (fun x => x <= a) l -> a <= b -> Forall (fun x => x <= b) l.
Proof.
  intros H Hab. eapply Forall_impl; [|exact H].
  intros x Hx. cbn in Hx. exact (Qle_trans _ _ _ Hx Hab).
Qed.

(** With non-negative variates the clock never goes back, and nothing is
    recorded beyond the horizon. *)
Lemma runs_times_ordered
  (propensity_func : state -> list Q) (reactions : list (list Z))
  (max_time : Q) draws t s ts ps e ts' ps' :
  runs propensity_func reactions max_time draws t s ts ps (e, (ts', ps')) ->
  forallb valid_draw draws = true ->
  StronglySorted Qle ts -> Forall (fun x => x <= t) ts -> t <= max_time ->
  StronglySorted Qle ts' /\ Forall (fun x => x <= max_time) ts'.
Proof.
  intro H. remember (e, (ts', ps')) as r eqn:Er.
  induction H as [draws t s ts ps Ht | draws t s ts ps Ht Hs
                 | d draws t s ts ps Ht Hs Hsc Hcut
                 | d draws t s ts ps t1 s1 r Ht Hf Hr IH];
    intros Hv Hsorted Hbound Hle.
  - injection Er as <- <- <-. split; [assumption|].
    now apply Forall_le_trans with t.
  - injection Er as <- <- <-. split; [assumption|].
    now apply Forall_le_trans with t.
  - injection Er as <- <- <-.
    assert (Hb : Forall (fun x => x <= max_time) ts)
      by now apply Forall_le_trans with t.
    split.
    + now apply StronglySorted_snoc.
    + apply Forall_app. split; [assumption|]. constructor; [apply Qle_refl|].
      constructor.
  - cbn [forallb] in Hv. apply andb_true_iff in Hv. destruct Hv as [Hd Hv].
    unfold valid_draw in Hd. rewrite !andb_true_iff in Hd.
    destruct Hd as [[Hvar _] _]. apply Qle_bool_iff in Hvar.
    destruct Hf as [idx row s2 Hsum Hscale Htime Hin _ _ _ _].
    assert (Hstep : t <= t1).
    { pose proof (Qmult_le_0_compat _ _ Hscale Hvar) as Hprod.
      rewrite Htime. lra. }
    assert (Hb : Forall (fun x => x <= t1) ts)
      by now apply Forall_le_trans with t.
    apply (IH Er Hv).
    + now apply StronglySorted_snoc.
    + apply Forall_app. split; [assumption|]. constructor; [apply Qle_refl|].
      constructor.
    + assumption.
Qed.

(** C6, as amended: for every run with a horizon that is not negative (the
    variates of the random source being non-negative and its uniform samples
    in [0,1)), the recorded times are non-decreasing, start at 0 and none
    exceeds the horizon. *)
Theorem C6_times_nondecreasing_within_horizon
  (propensity_func : state -> list Q) (reactions : list (list Z))
  (max_time : Q) (initial_state : state) (draws : list draw) (tr : trace) :
  0 <= max_time ->
  forallb valid_draw draws = true ->
  gillespie_simulation propensity_func reactions max_time initial_state draws
  = Return tr ->
  times_ordered max_time tr.
Proof.
  intros Hmax Hv H.
  destruct (run_of_simulation _ _ _ _ _ _ H) as [e Hrun].
  apply loop_runs in Hrun. destruct tr as [ts' ps'].
  destruct (runs_times_ordered _ _ _ _ _ _ _ _ _ _ _ Hrun Hv)
    as [Hsorted Hbound]; try assumption.
  - repeat constructor.
  - constructor; [apply Qle_refl|constructor].
  - destruct (runs_appends _ _ _ _ _ _ _ _ _ _ _ Hrun)
      as (dts & dps & E & _ & _).
    unfold times_ordered. cbn [fst]. now rewrite E in *.
Qed.

Lemma C6_witness :
  times_ordered 1 ([0; 10 # 64; 1070 # 2752; 1],
                   [[2; 1]; [3; 1]; [3; 0]; [3; 0]]%Z).
Proof.
  apply (C6_times_nondecreasing_within_horizon predator_prey_propensities
           predator_prey_reactions 1 [2; 1]%Z three_draws).
  - unfold Qle; simpl; lia.
  - reflexivity.
  - reflexivity.
Defined.

(** C6 as stated fails for a negative horizon: the time 0 of the first entry
    exceeds the horizon -1. *)
Lemma C6_negative_horizon_counterexample :
  exists tr,
    gillespie_simulation predator_prey_propensities predator_prey_reactions
      (-1) [2; 1]%Z three_draws = Return tr
    /\ forallb valid_draw three_draws = true
    /\ ~ times_ordered (-1) tr.
Proof.
  exists ([0], [[2; 1]%Z]). split; [reflexivity|]. split; [reflexivity|].
  intros (_ & _ & Hbound). cbn [fst] in Hbound.
  inversion Hbound as [|x l Hx _]; subst.
  unfold Qle in Hx. simpl in Hx. lia.
Qed.

(** ** Consecutive states *)

Lemma Sorted_snoc {A : Type} (R : A -> A -> Prop) (l : list A) (x y : A) :
  Sorted R (l ++ [x]) -> R x y -> Sorted R ((l ++ [x]) ++ [y]).
Proof.
  induction l as [|a l IH]; cbn; intros Hs Hxy.
  - repeat constructor. assumption.
  - apply Sorted_inv in Hs. destruct Hs as [Hs Hhd].
    constructor; [now apply IH|].
    destruct l; cbn in *; inversion Hhd; subst; now constructor.
Qed.

Lemma Sorted_consecutive {A : Type} (R : A -> A -> Prop)
  (pre : list A) (a b : A) (post : list A) :
  Sorted R (pre ++ a :: b :: post) -> R a b.
Proof.
  induction pre as [|p pre IH]; cbn; intro Hs; apply Sorted_inv in Hs.
  - destruct Hs as [_ Hhd]. now inversion Hhd.
  - now apply IH.
Qed.

Lemma wrap_int64_in_range (z : Z) :
  (- 9223372036854775808 <= z < 9223372036854775808)%Z -> wrap_int64 z = z.
Proof.
  intro Hz. unfold wrap_int64. rewrite Z.mod_small; lia.
Qed.

(** At the top of the range the addition of line 65 wraps around, and the
    floor of line 68 then records 0. *)
Example addition_wraps_around :
  iadd 65 [9223372036854775807]%Z [1]%Z = Return [- 9223372036854775808]%Z
  /\ np_maximum [- 9223372036854775808]%Z 0 = [0]%Z.
Proof. split; reflexivity. Qed.

(** Where every exact sum is a count in range, line 65 adds exactly. *)
Lemma add_rows_exact (s row : list Z) :
  Forall count_in_range (plus_rows s row) ->
  add_rows s row = plus_rows s row.
Proof.
  revert row. induction s as [|x s IH]; intros [|y row] H; cbn in *;
    try reflexivity.
  inversion H as [|? ? Hxy Hrest]; subst. unfold count_in_range in Hxy.
  rewrite wrap_int64_in_range by lia. f_equal. now apply IH.
Qed.

Lemma plus_rows_sub_rows (s row : list Z) :
  length row = length s -> sub_rows (plus_rows s row) s = row.
Proof.
  revert row. induction s as [|x s IH]; intros [|y row] Hlen;
    try discriminate; cbn; [reflexivity|].
  f_equal; [lia|]. apply IH. now injection Hlen.
Qed.

Lemma counts_nonneg (s : list Z) : Forall count_in_range s -> nonneg_state s.
Proof.
  intro H. eapply Forall_impl; [|exact H].
  intros z Hz. unfold count_in_range in Hz. cbn. lia.
Qed.

Lemma np_maximum_nonneg (s : state) : nonneg_state s -> np_maximum s 0 = s.
Proof.
  induction 1 as [|x s Hx _ IH]; cbn; [reflexivity|].
  unfold np_maximum in IH. rewrite IH. f_equal. lia.
Qed.

(** Until the truncation point every recorded state comes from the one before
    it by lines 65-68. *)
Lemma runs_chain
  (propensity_func : state -> list Q) (reactions : list (list Z))
  (max_time : Q) draws t s ts ps e ts' ps' :
  runs propensity_func reactions max_time draws t s ts ps (e, (ts', ps')) ->
  forall ps0, ps = ps0 ++ [s] ->
  Sorted (reaction_applied reactions) ps ->
  match e with
  | Truncated =>
      exists body x,
        ps' = body ++ [x] /\ Sorted (reaction_applied reactions) body
  | _ => Sorted (reaction_applied reactions) ps'
  end.
Proof.
  intro H. remember (e, (ts', ps')) as r eqn:Er.
  induction H as [draws t s ts ps Ht | draws t s ts ps Ht Hs
                 | d draws t s ts ps Ht Hs Hsc Hcut
                 | d draws t s ts ps t1 s1 r Ht Hf Hr IH];
    intros ps0 Eps Hsorted.
  - now injection Er as <- <- <-.
  - now injection Er as <- <- <-.
  - injection Er as <- <- <-. now exists ps, s.
  - apply (IH Er (ps0 ++ [s])); [now subst ps|].
    subst ps. apply Sorted_snoc; [assumption|].
    destruct Hf as [idx row s2 _ _ _ _ _ Hrow Hadd ->].
    exists row, s2. split; [|now split].
    eapply nth_error_In. exact Hrow.
Qed.

(** C4, as amended: for every pair of consecutive trajectory entries other
    than a truncation point, the later state is the earlier state plus one
    row of the stoichiometry table, added as 64-bit integers are (a sum out
    of range wraps around), with every negative component then raised to 0;
    the component-wise difference is exactly that row whenever the row has
    the length of the state and every component of the exact sum lies in
    [0, 2^63): nothing wraps and nothing is negative. *)
Theorem C4_consecutive_states
  (propensity_func : state -> list Q) (reactions : list (list Z))
  (max_time : Q) (initial_state : state) (draws : list draw)
  (e : exit) (tr : trace) (pre : list state) (earlier later : state)
  (post : list state) :
  gillespie_run propensity_func reactions max_time initial_state draws
  = Return (e, tr) ->
  snd tr = pre ++ earlier :: later :: post ->
  ~ (e = Truncated /\ post = []) ->
  exists row s1,
    In row reactions
    /\ iadd 65 earlier row = Return s1
    /\ later = np_maximum s1 0
    /\ (length row = length earlier ->
        Forall count_in_range (plus_rows earlier row) ->
        sub_rows later earlier = row).
Proof.
  intros Hrun Hsplit Hpoint.
  apply loop_runs in Hrun. destruct tr as [ts' ps']. cbn [snd] in Hsplit.
  pose proof (runs_chain _ _ _ _ _ _ _ _ _ _ _ Hrun [] eq_refl) as Hchain.
  assert (Hstep : reaction_applied reactions earlier later).
  { assert (H1 : Sorted (reaction_applied reactions) [initial_state])
      by repeat constructor.
    specialize (Hchain H1).
    destruct e.
    - subst ps'. exact (Sorted_consecutive _ _ _ _ _ Hchain).
    - subst ps'. exact (Sorted_consecutive _ _ _ _ _ Hchain).
    - destruct Hchain as (body & x & E & Hbody).
      destruct (@exists_last _ post) as (post' & y & ->).
      { intro Hnil. apply Hpoint. now split. }
      rewrite E in Hsplit.
      change (body ++ [x] = pre ++ [earlier; later] ++ post' ++ [y])
        in Hsplit.
      rewrite !app_assoc in Hsplit.
      apply app_inj_tail in Hsplit. destruct Hsplit as [-> _].
      rewrite <- !app_assoc in Hbody.
      exact (Sorted_consecutive _ _ _ _ _ Hbody). }
  destruct Hstep as (row & s1 & Hin & Hadd & ->).
  exists row, s1. repeat split; try assumption.
  intros Hlen Hrange.
  unfold iadd in Hadd. rewrite Hlen, Nat.eqb_refl in Hadd.
  injection Hadd as <-. rewrite (add_rows_exact _ _ Hrange).
  rewrite (np_maximum_nonneg _ (counts_nonneg _ Hrange)).
  now apply plus_rows_sub_rows.
Qed.

Lemma C4_witness :
  exists row s1,
    In row predator_prey_reactions
    /\ iadd 65 [3; 1]%Z row = Return s1
    /\ [3; 0]%Z = np_maximum s1 0
    /\ (length row = length [3; 1]%Z ->
        Forall count_in_range (plus_rows [3; 1]%Z row) ->
        sub_rows [3; 0]%Z [3; 1]%Z = row).
Proof.
  apply (C4_consecutive_states predator_prey_propensities
           predator_prey_reactions 1 [2; 1]%Z three_draws Truncated
           ([0; 10 # 64; 1070 # 2752; 1],
            [[2; 1]; [3; 1]; [3; 0]; [3; 0]]%Z)
           [[2; 1]%Z] [3; 1]%Z [3; 0]%Z [[3; 0]%Z]).
  - reflexivity.
  - reflexivity.
  - intros [_ Hnil]. discriminate Hnil.
Defined.

(** C4 as stated fails where the floor of line 68 changes a component: from
    the state [[0]] the row [[-1]] leads to [[0]] again, and the difference
    [[0]] is no row of the table. *)
Lemma C4_floor_counterexample :
  exists e tr pre earlier later post,
    gillespie_run steady_propensities decay_reactions 1 [0]%Z two_draws
    = Return (e, tr)
    /\ snd tr = pre ++ earlier :: later :: post
    /\ ~ (e = Truncated /\ post = [])
    /\ ~ In (sub_rows later earlier) decay_reactions.
Proof.
  exists Truncated, ([0; 1 # 2; 1], [[0]; [0]; [0]]%Z), [], [0]%Z, [0]%Z,
    [[0]%Z].
  split; [reflexivity|]. split; [reflexivity|]. split.
  - intros [_ Hnil]. discriminate Hnil.
  - cbn. intros [Hrow|[]]. discriminate Hrow.
Qed.

(** ** Determinism under a fixed random stream *)

(** A run that has ended does not look at further draws. *)
Lemma loop_extend
  (propensity_func : state -> list Q) (reactions : list (list Z))
  (max_time : Q) (draws extra : list draw) :
  forall t s ts ps,
    loop propensity_func reactions max_time draws t s ts ps <> Pending ->
    loop propensity_func reactions max_time (draws ++ extra) t s ts ps
    = loop propensity_func reactions max_time draws t s ts ps.
Proof.
  induction draws as [|d draws IH]; intros t s ts ps; cbn [app].
  - rewrite (loop_eq _ _ _ extra), (loop_eq _ _ _ []).
    destruct (negb _); [reflexivity|].
    destruct (Qeq_bool _ _); [reflexivity|].
    intro H. now contradiction H.
  - rewrite (loop_eq _ _ _ (d :: draws ++ extra)), (loop_eq _ _ _ (d :: draws)).
    destruct (negb _); [reflexivity|].
    destruct (Qeq_bool _ _); [reflexivity|].
    destruct (divide _ _ _) as [scale| |]; cbn [bind]; try reflexivity.
    destruct (np_random_exponential _ _ _) as [tau| |]; cbn [bind];
      try reflexivity.
    destruct (Qlt_bool max_time _); [reflexivity|].
    destruct (np_divide _ _ _) as [probs| |]; cbn [bind]; try reflexivity.
    destruct (np_random_choice _ _ _ _) as [idx| |]; cbn [bind];
      try reflexivity.
    destruct (getitem _ _ _) as [row| |]; cbn [bind]; try reflexivity.
    destruct (iadd _ _ _) as [s1| |]; cbn [bind]; try reflexivity.
    apply IH.
Qed.

Lemma script_ext (rs1 rs2 : nat -> draw) (n : nat) :
  (forall k, rs1 k = rs2 k) -> script rs1 n = script rs2 n.
Proof. intro H. unfold script. apply map_ext. intros k. apply H. Qed.

Lemma script_prefix (rs : nat -> draw) (n m : nat) :
  (n <= m)%nat -> exists extra, script rs m = script rs n ++ extra.
Proof.
  intro Hle. exists (map rs (seq n (m - n))). unfold script.
  rewrite <- map_app, <- seq_app. do 2 f_equal. lia.
Qed.

Lemma simulation_extend
  (propensity_func : state -> list Q) (reactions : list (list Z))
  (max_time : Q) (initial_state : state) (draws extra : list draw) (tr : trace) :
  gillespie_simulation propensity_func reactions max_time initial_state draws
  = Return tr ->
  gillespie_simulation propensity_func reactions max_time initial_state
    (draws ++ extra) = Return tr.
Proof.
  unfold gillespie_simulation, gillespie_run. intro H.
  rewrite loop_extend; [assumption|].
  intro E. rewrite E in H. discriminate.
Qed.

(** C9: two runs on the same initial state, propensity function,
    stoichiometry table and horizon that read the same random stream return
    the same trajectory, times and states alike, however many draws each of
    them had at hand. *)
Theorem C9_deterministic_under_fixed_stream
  (propensity_func : state -> list Q) (reactions : list (list Z))
  (max_time : Q) (initial_state : state)
  (rs1 rs2 : nat -> draw) (n1 n2 : nat) (tr1 tr2 : trace) :
  (forall k, rs1 k = rs2 k) ->
  gillespie_simulation propensity_func reactions max_time initial_state
    (script rs1 n1) = Return tr1 ->
  gillespie_simulation propensity_func reactions max_time initial_state
    (script rs2 n2) = Return tr2 ->
  tr1 = tr2.
Proof.
  intros Hrs H1 H2. rewrite (script_ext _ _ _ Hrs) in H1.
  destruct (Nat.le_ge_cases n1 n2) as [Hle|Hle];
    destruct (script_prefix rs2 _ _ Hle) as [extra E].
  - apply simulation_extend with (extra := extra) in H1.
    rewrite <- E in H1. congruence.
  - apply simulation_extend with (extra := extra) in H2.
    rewrite <- E in H2. congruence.
Qed.

Lemma C9_witness :
  ([0; 10 # 64; 1070 # 2752; 1], [[2; 1]; [3; 1]; [3; 0]; [3; 0]]%Z)
  = ([0; 10 # 64; 1070 # 2752; 1], [[2; 1]; [3; 1]; [3; 0]; [3; 0]]%Z).
Proof.
  apply (C9_deterministic_under_fixed_stream predator_prey_propensities
           predator_prey_reactions 1 [2; 1]%Z
           (replay three_draws) (fun k => replay three_draws k) 3 5).
  - intro k. reflexivity.
  - reflexivity.
  - reflexivity.
Defined.

(** ** Selection of the reaction channel *)

Lemma last_cumsum_from (v : list Q) : forall acc d,
  last (cumsum_from acc v) d =
  match v with [] => d | _ :: _ => fold_left Qplus v acc end.
Proof.
  induction v as [|a v IH]; intros acc d; [reflexivity|].
  cbn [cumsum_from]. specialize (IH (acc + a) d).
  destruct v as [|b v]; [reflexivity|].
  cbn [cumsum_from last] in *. exact IH.
Qed.

Lemma length_cumsum_from (v : list Q) : forall acc,
  length (cumsum_from acc v) = length v.
Proof. induction v as [|a v IH]; intro acc; cbn; [|rewrite IH]; reflexivity. Qed.

Lemma last_map_nonempty {A B : Type} (f : A -> B) (l : list A) (d : B) (d' : A) :
  l <> [] -> last (map f l) d = f (last l d').
Proof.
  induction l as [|a l IH]; intro Hne; [contradiction|].
  destruct l as [|b l]; [reflexivity|].
  change (last (map f (b :: l)) d = f (last (b :: l) d')).
  apply IH. discriminate.
Qed.

Lemma searchsorted_right_lt (cdf : list Q) (u : Q) :
  cdf <> [] -> Qle_bool (last cdf 0) u = false ->
  (searchsorted_right cdf u < length cdf)%nat.
Proof.
  induction cdf as [|c cdf IH]; intros Hne Hlast; [contradiction|].
  cbn [searchsorted_right length].
  destruct (Qle_bool c u) eqn:Hc; [|lia].
  destruct cdf as [|c' cdf].
  - cbn in Hlast. congruence.
  - apply -> Nat.succ_lt_mono. apply IH; [discriminate|exact Hlast].
Qed.

(** The selected index is an index of the propensity vector. *)
Lemma np_random_choice_lt (line n : nat) (p : list Q) (d : draw) (idx : nat) :
  valid_draw d = true ->
  np_random_choice line n p d = Return idx -> (idx < n)%nat.
Proof.
  intros Hd H. unfold np_random_choice in H.
  destruct (Nat.eqb n 0) eqn:Hn; [discriminate|].
  destruct (Nat.eqb (length p) n) eqn:Hlen; cbn [negb] in H; [|discriminate].
  destruct (existsb _ p); [discriminate|].
  destruct (Qeq_bool (np_sum p) 1) eqn:Hsum; cbn [negb] in H; [|discriminate].
  injection H as <-.
  apply Nat.eqb_neq in Hn. apply Nat.eqb_eq in Hlen. apply Qeq_bool_iff in Hsum.
  unfold valid_draw in Hd. rewrite !andb_true_iff in Hd.
  destruct Hd as [_ Hu]. apply Qlt_bool_true in Hu.
  assert (Hp : p <> []) by (intro E; subst p; cbn in Hlen; lia).
  assert (Hcdf : np_cumsum p <> []).
  { intro E. apply (f_equal (@length Q)) in E.
    unfold np_cumsum in E. rewrite length_cumsum_from in E.
    cbn in E. lia. }
  assert (Hlast : last (np_cumsum p) 0 = np_sum p).
  { unfold np_cumsum, np_sum. rewrite last_cumsum_from.
    destruct p; [contradiction|reflexivity]. }
  rewrite Hlast in *.
  replace n with (length (map (fun c => c / np_sum p) (np_cumsum p))).
  2:{ rewrite length_map. unfold np_cumsum. now rewrite length_cumsum_from. }
  apply searchsorted_right_lt.
  - intro E. apply map_eq_nil in E. contradiction.
  - rewrite (last_map_nonempty _ _ _ 0 Hcdf), Hlast.
    destruct (Qle_bool _ _) eqn:Hle; [|reflexivity].
    apply Qle_bool_iff in Hle. rewrite Hsum in Hle.
    exfalso. apply (Qlt_not_le _ _ Hu).
    eapply Qle_trans; [|exact Hle]. unfold Qle; simpl; lia.
Qed.

(** ** Propensity vectors and tables of different lengths *)

(** The loop raises [IndexError] only at line 65, and only when some state
    has more propensities than the table has rows. *)
Lemma loop_index_error
  (propensity_func : state -> list Q) (reactions : list (list Z))
  (max_time : Q) (draws : list draw) :
  forall t s ts ps line,
    forallb valid_draw draws = true ->
    loop propensity_func reactions max_time draws t s ts ps
    = Raise IndexError line ->
    line = 65%nat
    /\ exists s', (length reactions < length (propensity_func s'))%nat.
Proof.
  induction draws as [|d draws IH]; intros t s ts ps line Hv H;
    rewrite loop_eq in H.
  - destruct (negb _); [discriminate|].
    destruct (Qeq_bool _ _); discriminate.
  - cbn [forallb] in Hv. apply andb_true_iff in Hv. destruct Hv as [Hd Hv].
    destruct (negb _); [discriminate|].
    unfold divide, np_divide in H.
    destruct (Qeq_bool _ _); [discriminate|]. cbn [bind] in H.
    unfold np_random_exponential in H.
    destruct (Qlt_bool (1 / _) 0); cbn [bind] in H; [discriminate|].
    destruct (Qlt_bool max_time _); [discriminate|].
    destruct (np_random_choice _ _ _ _) as [idx|e l|] eqn:Hidx;
      cbn [bind] in H; [| |discriminate].
    2:{ unfold np_random_choice in Hidx.
        repeat match type of Hidx with
               | (if ?c then _ else _) = _ => destruct c
               end; congruence. }
    apply (np_random_choice_lt _ _ _ _ _ Hd) in Hidx.
    unfold getitem in H.
    destruct (nth_error reactions idx) as [row|] eqn:Hrow; cbn [bind] in H.
    + unfold iadd in H.
      destruct (Nat.eqb _ _); cbn [bind] in H; [now apply IH in H|].
      destruct row as [|y [|z row]]; cbn [bind] in H; try discriminate.
      now apply IH in H.
    + injection H as <-. split; [reflexivity|].
      apply nth_error_None in Hrow. exists s. lia.
Qed.

(** C5, as amended: the engine never compares the length of the propensity
    vector with the number of rows of the table.  A step that selects a
    channel whose index is not a row index of the table raises [IndexError]
    at line 65; a run raises [IndexError] only there, and only when some
    propensity vector is longer than the table.  Any other difference of
    length goes unnoticed. *)
Theorem C5_length_mismatch
  (propensity_func : state -> list Q) (reactions : list (list Z))
  (max_time : Q) :
  (forall d draws t s ts ps tau idx,
      Qlt_bool t max_time = true ->
      Qeq_bool (np_sum (propensity_func s)) 0 = false ->
      np_random_exponential 48 (1 / np_sum (propensity_func s)) d = Return tau ->
      Qlt_bool max_time (t + tau) = false ->
      np_random_choice 62 (length (propensity_func s))
        (map (fun a => a / np_sum (propensity_func s)) (propensity_func s)) d
      = Return idx ->
      nth_error reactions idx = None ->
      loop propensity_func reactions max_time (d :: draws) t s ts ps
      = Raise IndexError 65)
  /\ (forall initial_state draws line,
         forallb valid_draw draws = true ->
         gillespie_simulation propensity_func reactions max_time
           initial_state draws = Raise IndexError line ->
         line = 65%nat
         /\ exists s, (length reactions < length (propensity_func s))%nat).
Proof.
  split.
  - intros d draws t s ts ps tau idx Ht Hs Htau Hcut Hidx Hrow.
    rewrite loop_eq. rewrite Ht. cbn [negb].
    unfold divide, np_divide. rewrite Hs. cbn [bind].
    rewrite Htau. cbn [bind]. rewrite Hcut, Hidx. cbn [bind].
    unfold getitem. now rewrite Hrow.
  - intros initial_state draws line Hv H.
    unfold gillespie_simulation, gillespie_run in H.
    destruct (loop _ _ _ _ _ _ _ _) as [r|e l|] eqn:Hloop; cbn [bind] in H;
      try discriminate.
    injection H as -> ->.
    exact (loop_index_error _ _ _ _ _ _ _ _ _ Hv Hloop).
Qed.

Lemma C5_witness :
  loop twin_propensities growth_reactions 1 [second_channel_draw] 0 [0]%Z
    [0] [[0]%Z] = Raise IndexError 65
  /\ (65%nat = 65%nat
      /\ exists s, (length growth_reactions < length (twin_propensities s))%nat).
Proof.
  split.
  - apply (proj1 (C5_length_mismatch twin_propensities growth_reactions 1)
             second_channel_draw [] 0 [0]%Z [0] [[0]%Z] (1 # 2) 1%nat);
      reflexivity.
  - apply (proj2 (C5_length_mismatch twin_propensities growth_reactions 1)
             [0]%Z [second_channel_draw] 65%nat); reflexivity.
Defined.

(** C5 as stated fails: with two propensities and a table of one row the run
    returns a trajectory and raises nothing, as long as the second channel is
    not selected. *)
Lemma C5_silent_mismatch_counterexample :
  length (twin_propensities [0]%Z) <> length growth_reactions
  /\ gillespie_simulation twin_propensities growth_reactions 1 [0]%Z
       first_channel_draws
     = Return ([0; 1 # 2; 1], [[0]; [1]; [1]]%Z).
Proof.
  split; [discriminate|reflexivity].
Qed.

(** ** Shape of the returned arrays *)

Lemma add_rows_length (s row : list Z) :
  length row = length s -> length (add_rows s row) = length s.
Proof.
  revert row. induction s as [|x s IH]; intros [|y row] Hlen;
    try discriminate; cbn; [reflexivity|].
  f_equal. apply IH. now injection Hlen.
Qed.

Lemma iadd_length (line : nat) (s row s1 : list Z) :
  iadd line s row = Return s1 -> length s1 = length s.
Proof.
  unfold iadd. destruct (Nat.eqb _ _) eqn:E.
  - intro H. injection H as <-. apply add_rows_length. now apply Nat.eqb_eq.
  - destruct row as [|y [|z row]]; intro H; try discriminate.
    injection H as <-. apply length_map.
Qed.

Lemma np_maximum_length (s : state) (floor : Z) :
  length (np_maximum s floor) = length s.
Proof. apply length_map. Qed.

Lemma fires_length
  (propensity_func : state -> list Q) (reactions : list (list Z))
  (max_time : Q) d t s t' s' :
  fires propensity_func reactions max_time d t s t' s' ->
  length s' = length s.
Proof.
  intros [idx row s1 _ _ _ _ _ _ Hadd ->].
  rewrite np_maximum_length. exact (iadd_length _ _ _ _ Hadd).
Qed.

Lemma runs_keeps_length
  (propensity_func : state -> list Q) (reactions : list (list Z))
  (max_time : Q) draws t s ts ps e ts' ps' (n : nat) :
  runs propensity_func reactions max_time draws t s ts ps (e, (ts', ps')) ->
  length s = n -> Forall (fun x => length x = n) ps ->
  Forall (fun x => length x = n) ps'.
Proof.
  intro H. remember (e, (ts', ps')) as r eqn:Er.
  induction H as [draws t s ts ps Ht | draws t s ts ps Ht Hs
                 | d draws t s ts ps Ht Hs Hsc Hcut
                 | d draws t s ts ps t1 s1 r Ht Hf Hr IH];
    intros Hlen Hps.
  - now injection Er as <- <- <-.
  - now injection Er as <- <- <-.
  - injection Er as <- <- <-. apply Forall_app. split; [assumption|].
    now constructor.
  - apply fires_length in Hf. apply (IH Er); [congruence|].
    apply Forall_app. split; [assumption|]. constructor; [congruence|].
    constructor.
Qed.

(** X1: whatever the model, the two returned sequences have the same number
    of entries and every recorded state has as many components as the
    initial state: [populations] is a proper two-dimensional array, one row
    per entry of [times]. *)
Theorem returned_arrays_rectangular
  (propensity_func : state -> list Q) (reactions : list (list Z))
  (max_time : Q) (initial_state : state) (draws : list draw) (tr : trace) :
  gillespie_simulation propensity_func reactions max_time initial_state draws
  = Return tr ->
  rectangular (length initial_state) tr.
Proof.
  intro H. destruct (run_of_simulation _ _ _ _ _ _ H) as [e Hrun].
  apply loop_runs in Hrun. destruct tr as [ts' ps']. split; cbn [fst snd].
  - destruct (runs_appends _ _ _ _ _ _ _ _ _ _ _ Hrun)
      as (dts & dps & -> & -> & Hlen).
    rewrite !length_app. cbn. now rewrite Hlen.
  - apply (runs_keeps_length _ _ _ _ _ _ _ _ _ _ _ _ Hrun eq_refl).
    now constructor.
Qed.

Lemma returned_arrays_rectangular_witness :
  rectangular 2 ([0; 10 # 64; 1070 # 2752; 1],
                 [[2; 1]; [3; 1]; [3; 0]; [3; 0]]%Z).
Proof.
  apply (returned_arrays_rectangular predator_prey_propensities
           predator_prey_reactions 1 [2; 1]%Z three_draws).
  reflexivity.
Defined.

(** ** Channels that fire *)

Lemma positive_of_scale (total : Q) :
  ~ total == 0 -> 0 <= 1 / total -> 0 < total.
Proof.
  intros Hne Hscale.
  destruct (Q_dec 0 total) as [[Hlt|Hgt]|E]; [assumption| |].
  - exfalso. pose proof (Qmult_div_r 1 total Hne) as E. nra.
  - exfalso. apply Hne. now symmetry.
Qed.

Lemma searchsorted_right_support (total u : Q) (p : list Q) :
  0 < total ->
  forall acc,
    acc / total <= u ->
    (searchsorted_right (map (fun c => (c / total)%Q) (cumsum_from acc p)) u
     < length p)%nat ->
    0 < nth (searchsorted_right
               (map (fun c => c / total) (cumsum_from acc p)) u) p 0.
Proof.
  intro Htotal. induction p as [|a p IH]; intros acc Hacc Hlt;
    cbn [cumsum_from map searchsorted_right length] in *; [lia|].
  destruct (Qle_bool ((acc + a) / total) u) eqn:Hle.
  - cbn [nth]. apply Qle_bool_iff in Hle. apply IH; [assumption|lia].
  - cbn [nth].
    assert (Hu : u < (acc + a) / total).
    { apply Qnot_le_lt. intro H. apply Qle_bool_iff in H. congruence. }
    apply Qnot_le_lt. intro Ha.
    assert (Hdiv : a / total <= 0).
    { apply Qle_shift_div_r; [assumption|]. lra. }
    assert (E : (acc + a) / total == acc / total + a / total).
    { unfold Qdiv. apply Qmult_plus_distr_l. }
    rewrite E in Hu. lra.
Qed.

(** The selected channel has a positive probability. *)
Lemma np_random_choice_support (line n : nat) (p : list Q) (d : draw)
  (idx : nat) :
  valid_draw d = true ->
  np_random_choice line n p d = Return idx -> 0 < nth idx p 0.
Proof.
  intros Hd H. pose proof (np_random_choice_lt _ _ _ _ _ Hd H) as Hlt.
  unfold np_random_choice in H.
  destruct (Nat.eqb n 0); [discriminate|].
  destruct (Nat.eqb (length p) n) eqn:Hlen; cbn [negb] in H; [|discriminate].
  destruct (existsb _ p); [discriminate|].
  destruct (Qeq_bool (np_sum p) 1) eqn:Hsum; cbn [negb] in H; [|discriminate].
  injection H as <-.
  apply Nat.eqb_eq in Hlen. apply Qeq_bool_iff in Hsum.
  unfold valid_draw in Hd. rewrite !andb_true_iff in Hd.
  destruct Hd as [[_ Hu] _]. apply Qle_bool_iff in Hu.
  assert (Hlast : last (np_cumsum p) 0 = np_sum p).
  { unfold np_cumsum, np_sum. rewrite last_cumsum_from.
    destruct p; [cbn in Hlen; cbn in Hlt; lia|reflexivity]. }
  rewrite Hlast in *. unfold np_cumsum in *.
  apply searchsorted_right_support.
  - rewrite Hsum. reflexivity.
  - rewrite Hsum. exact Hu.
  - now rewrite Hlen.
Qed.

(** A reaction only fires through a channel whose rate is positive. *)
Lemma fires_positive_channel
  (propensity_func : state -> list Q) (reactions : list (list Z))
  (max_time : Q) d t s t' s' :
  valid_draw d = true ->
  fires propensity_func reactions max_time d t s t' s' ->
  channel_fired propensity_func reactions s s'.
Proof.
  intros Hd [idx row s1 Hsum Hscale _ _ Hidx Hrow Hadd Hmax].
  exists idx, row, s1. repeat split; try assumption.
  pose proof (np_random_choice_lt _ _ _ _ _ Hd Hidx) as Hlt.
  pose proof (np_random_choice_support _ _ _ _ _ Hd Hidx) as Hp.
  pose proof (positive_of_scale _ Hsum Hscale) as Hpos.
  rewrite (nth_indep _ 0 (0 / np_sum (propensity_func s))) in Hp
    by now rewrite length_map.
  rewrite (map_nth (fun a => a / np_sum (propensity_func s))) in Hp.
  apply Qnot_le_lt. intro Hneg.
  assert (Hdiv : nth idx (propensity_func s) 0
                 / np_sum (propensity_func s) <= 0).
  { apply Qle_shift_div_r; [assumption|]. lra. }
  lra.
Qed.

(** Any relation that holds across each reaction holds between consecutive
    recorded states, up to the truncation point. *)
Lemma runs_chain_valid
  (propensity_func : state -> list Q) (reactions : list (list Z))
  (max_time : Q) (R : state -> state -> Prop) :
  (forall d t s t' s',
      valid_draw d = true ->
      fires propensity_func reactions max_time d t s t' s' -> R s s') ->
  forall draws t s ts ps e ts' ps',
    runs propensity_func reactions max_time draws t s ts ps (e, (ts', ps')) ->
    forallb valid_draw draws = true ->
    forall ps0, ps = ps0 ++ [s] ->
    Sorted R ps ->
    match e with
    | Truncated => exists body x, ps' = body ++ [x] /\ Sorted R body
    | _ => Sorted R ps'
    end.
Proof.
  intros HR draws t s ts ps e ts' ps' H.
  remember (e, (ts', ps')) as r eqn:Er.
  induction H as [draws t s ts ps Ht | draws t s ts ps Ht Hs
                 | d draws t s ts ps Ht Hs Hsc Hcut
                 | d draws t s ts ps t1 s1 r Ht Hf Hr IH];
    intros Hv ps0 Eps Hsorted.
  - now injection Er as <- <- <-.
  - now injection Er as <- <- <-.
  - injection Er as <- <- <-. now exists ps, s.
  - cbn [forallb] in Hv. apply andb_true_iff in Hv. destruct Hv as [Hd Hv].
    apply (IH Er Hv (ps0 ++ [s])); [now subst ps|].
    subst ps. apply Sorted_snoc; [assumption|].
    exact (HR _ _ _ _ _ Hd Hf).
Qed.

Lemma consecutive_of_chain (R : state -> state -> Prop) (e : exit)
  (ps' pre : list state) (earlier later : state) (post : list state) :
  match e with
  | Truncated => exists body x, ps' = body ++ [x] /\ Sorted R body
  | _ => Sorted R ps'
  end ->
  ps' = pre ++ earlier :: later :: post ->
  ~ (e = Truncated /\ post = []) ->
  R earlier later.
Proof.
  intros Hchain Hsplit Hpoint. destruct e.
  - subst ps'. exact (Sorted_consecutive _ _ _ _ _ Hchain).
  - subst ps'. exact (Sorted_consecutive _ _ _ _ _ Hchain).
  - destruct Hchain as (body & x & E & Hbody).
    destruct (@exists_last _ post) as (post' & y & ->).
    { intro Hnil. apply Hpoint. now split. }
    rewrite E in Hsplit.
    change (body ++ [x] = pre ++ [earlier; later] ++ post' ++ [y]) in Hsplit.
    rewrite !app_assoc in Hsplit.
    apply app_inj_tail in Hsplit. destruct Hsplit as [-> _].
    rewrite <- !app_assoc in Hbody.
    exact (Sorted_consecutive _ _ _ _ _ Hbody).
Qed.

(** X5: a channel whose propensity is zero never fires.  Between two
    consecutive entries other than a truncation point, the row that was
    applied belongs to a channel whose propensity at the earlier state is
    strictly positive. *)
Theorem only_positive_channels_fire
  (propensity_func : state -> list Q) (reactions : list (list Z))
  (max_time : Q) (initial_state : state) (draws : list draw)
  (e : exit) (tr : trace) (pre : list state) (earlier later : state)
  (post : list state) :
  forallb valid_draw draws = true ->
  gillespie_run propensity_func reactions max_time initial_state draws
  = Return (e, tr) ->
  snd tr = pre ++ earlier :: later :: post ->
  ~ (e = Truncated /\ post = []) ->
  channel_fired propensity_func reactions earlier later.
Proof.
  intros Hv Hrun Hsplit Hpoint.
  apply loop_runs in Hrun. destruct tr as [ts' ps']. cbn [snd] in Hsplit.
  eapply consecutive_of_chain; [|exact Hsplit|exact Hpoint].
  eapply (runs_chain_valid _ _ _ _
            (fires_positive_channel propensity_func reactions max_time)
            _ _ _ _ _ _ _ _ Hrun Hv []); [reflexivity|].
  repeat constructor.
Qed.

Lemma only_positive_channels_fire_witness :
  channel_fired predator_prey_propensities predator_prey_reactions
    [3; 1]%Z [3; 0]%Z.
Proof.
  apply (only_positive_channels_fire predator_prey_propensities
           predator_prey_reactions 1 [2; 1]%Z three_draws Truncated
           ([0; 10 # 64; 1070 # 2752; 1],
            [[2; 1]; [3; 1]; [3; 0]; [3; 0]]%Z)
           [[2; 1]%Z] [3; 1]%Z [3; 0]%Z [[3; 0]%Z]).
  - reflexivity.
  - reflexivity.
  - reflexivity.
  - intros [_ Hnil]. discriminate Hnil.
Defined.

(** ** A longer horizon *)

Lemma fires_functional
  (propensity_func : state -> list Q) (reactions : list (list Z))
  (h1 h2 : Q) d t s t1 s1 t2 s2 :
  fires propensity_func reactions h1 d t s t1 s1 ->
  fires propensity_func reactions h2 d t s t2 s2 ->
  t1 = t2 /\ s1 = s2.
Proof.
  intros [idx row x _ _ Ht _ Hidx Hrow Hadd Hmax]
         [idx' row' x' _ _ Ht' _ Hidx' Hrow' Hadd' Hmax'].
  split; [congruence|].
  rewrite Hidx in Hidx'. injection Hidx' as <-.
  rewrite Hrow in Hrow'. injection Hrow' as <-.
  rewrite Hadd in Hadd'. injection Hadd' as <-. congruence.
Qed.

Lemma runs_longer_horizon
  (propensity_func : state -> list Q) (reactions : list (list Z))
  (h1 h2 : Q) draws t s ts ps e1 tr1 :
  h1 <= h2 ->
  runs propensity_func reactions h1 draws t s ts ps (e1, tr1) ->
  forall e2 tr2,
    runs propensity_func reactions h2 draws t s ts ps (e2, tr2) ->
    extends (events e1 tr1) tr2.
Proof.
  intros Hh H. remember (e1, tr1) as r eqn:Er.
  induction H as [draws t s ts ps Ht | draws t s ts ps Ht Hs
                 | d draws t s ts ps Ht Hs Hsc Hcut
                 | d draws t s ts ps t1 s1 r Ht Hf Hr IH];
    intros e2 [ts2 ps2] H2.
  - injection Er as <- <-.
    destruct (runs_appends _ _ _ _ _ _ _ _ _ _ _ H2)
      as (dts & dps & -> & -> & _).
    now exists dts, dps.
  - injection Er as <- <-.
    destruct (runs_appends _ _ _ _ _ _ _ _ _ _ _ H2)
      as (dts & dps & -> & -> & _).
    now exists dts, dps.
  - injection Er as <- <-. cbn [events fst snd]. rewrite !removelast_last.
    destruct (runs_appends _ _ _ _ _ _ _ _ _ _ _ H2)
      as (dts & dps & -> & -> & _).
    now exists dts, dps.
  - specialize (IH Er). clear Er.
    inversion H2 as [? ? ? ? ? Ht2 | ? ? ? ? ? Ht2 Hs2
                    | ? ? ? ? ? ? Ht2 Hs2 Hsc2 Hcut2
                    | ? ? ? ? ? ? t2 s2 ? Ht2 Hf2 Hr2]; subst.
    + exfalso. apply Ht2. exact (Qlt_le_trans _ _ _ Ht Hh).
    + exfalso. destruct Hf as [? ? ? Hsum]. contradiction.
    + exfalso. destruct Hf as [? ? ? _ _ Htime Hin]. subst t1.
      apply (Qlt_irrefl h2).
      exact (Qlt_le_trans _ _ _ Hcut2 (Qle_trans _ _ _ Hin Hh)).
    + destruct (fires_functional _ _ _ _ _ _ _ _ _ _ _ Hf Hf2) as [<- <-].
      exact (IH _ _ Hr2).
Qed.

(** X7: a longer horizon does not change the past.  With the same model,
    initial state and draws, the start and the reactions recorded by a run
    to the horizon [h1] open the trajectory of a run to any horizon
    [h2 >= h1]; only the truncation point of the shorter run is replaced. *)
Theorem longer_horizon_extends
  (propensity_func : state -> list Q) (reactions : list (list Z))
  (h1 h2 : Q) (initial_state : state) (draws : list draw)
  (e1 e2 : exit) (tr1 tr2 : trace) :
  h1 <= h2 ->
  gillespie_run propensity_func reactions h1 initial_state draws
  = Return (e1, tr1) ->
  gillespie_run propensity_func reactions h2 initial_state draws
  = Return (e2, tr2) ->
  extends (events e1 tr1) tr2.
Proof.
  intros Hh H1 H2. apply loop_runs in H1. apply loop_runs in H2.
  exact (runs_longer_horizon _ _ _ _ _ _ _ _ _ _ _ Hh H1 _ _ H2).
Qed.

Lemma longer_horizon_extends_witness :
  extends
    (events Truncated
       ([0; 10 # 64; 1 # 4], [[2; 1]; [3; 1]; [3; 1]]%Z))
    ([0; 10 # 64; 1070 # 2752; 1], [[2; 1]; [3; 1]; [3; 0]; [3; 0]]%Z).
Proof.
  apply (longer_horizon_extends predator_prey_propensities
           predator_prey_reactions (1 # 4) 1 [2; 1]%Z three_draws
           Truncated Truncated).
  - unfold Qle; simpl; lia.
  - reflexivity.
  - reflexivity.
Defined.

(** ** The results table of main.py *)

Lemma column_defined (line n j : nat) (populations : list state) :
  (j < n)%nat -> Forall (fun s => length s = n) populations ->
  column line populations j = Return (map (fun s => nth j s 0%Z) populations).
Proof.
  intros Hj. induction 1 as [|s rest Hs _ IH]; cbn; [reflexivity|].
  destruct (nth_error s j) as [x|] eqn:E.
  - rewrite IH. cbn [bind]. now rewrite (nth_error_nth _ _ _ E).
  - apply nth_error_None in E. lia.
Qed.

Lemma getcolumn_defined (line n j : nat) (populations : list state) :
  populations <> [] -> (j < n)%nat ->
  Forall (fun s => length s = n) populations ->
  getcolumn line populations j
  = Return (map (fun s => nth j s 0%Z) populations).
Proof.
  intros Hne Hj Hshape. unfold getcolumn.
  destruct populations as [|s rest]; [contradiction|].
  now apply column_defined with n.
Qed.

Lemma column_nonneg (j : nat) (populations : list state) :
  Forall nonneg_state populations ->
  Forall (fun x => (0 <= x)%Z) (map (fun s => nth j s 0%Z) populations).
Proof.
  intro H. apply Forall_map. eapply Forall_impl; [|exact H].
  intros s Hs. cbn.
  destruct (nth_in_or_default j s 0%Z) as [Hin | ->]; [|lia].
  exact (proj1 (Forall_forall _ _) Hs _ Hin).
Qed.

Lemma frame_of_run
  (propensity_func : state -> list Q) (reactions : list (list Z))
  (max_time : Q) (prey predator : Z) (draws : list draw) (tr : trace) :
  (0 <= prey)%Z -> (0 <= predator)%Z ->
  gillespie_simulation propensity_func reactions max_time [prey; predator]
    draws = Return tr ->
  exists df,
    results_frame tr = Return df
    /\ Time df = fst tr
    /\ length (Prey df) = length (fst tr)
    /\ length (Predator df) = length (fst tr)
    /\ hd_error (Prey df) = Some prey
    /\ hd_error (Predator df) = Some predator
    /\ Forall (fun x => (0 <= x)%Z) (Prey df)
    /\ Forall (fun x => (0 <= x)%Z) (Predator df).
Proof.
  intros Hprey Hpred H.
  destruct (run_of_simulation _ _ _ _ _ _ H) as [e Hrun].
  apply loop_runs in Hrun. destruct tr as [ts' ps'].
  assert (Hshape : Forall (fun s => length s = 2%nat) ps').
  { apply (runs_keeps_length _ _ _ _ _ _ _ _ _ _ _ _ Hrun eq_refl).
    now constructor. }
  assert (Hnn : Forall nonneg_state ps').
  { apply (runs_nonneg _ _ _ _ _ _ _ _ _ _ _ Hrun).
    - repeat constructor; assumption.
    - repeat constructor; assumption. }
  destruct (runs_appends _ _ _ _ _ _ _ _ _ _ _ Hrun)
    as (dts & dps & Ets & Eps & Hlen).
  assert (Hrows : length ps' = length ts').
  { rewrite Ets, Eps, !length_app. cbn. now rewrite Hlen. }
  exists (mkFrame ts' (map (fun s => nth 0 s 0%Z) ps')
                  (map (fun s => nth 1 s 0%Z) ps')).
  assert (Hne : ps' <> []) by (rewrite Eps; discriminate).
  unfold results_frame. cbn [fst snd].
  split.
  - rewrite (getcolumn_defined 106 2 0 ps'), (getcolumn_defined 107 2 1 ps')
      by (assumption || lia).
    cbn [bind]. unfold DataFrame.
    unfold state in *. rewrite !length_map, Hrows, Nat.eqb_refl. reflexivity.
  - cbn [Time Prey Predator]. rewrite !length_map.
    repeat split; try assumption; try apply column_nonneg; try assumption.
    + now rewrite Eps.
    + now rewrite Eps.
Qed.

(** X9: from any returned run on a non-negative state of two species,
    main.py gets its table: the three columns are defined and as long as
    [times], the first row holds the initial populations, and no count in it
    is negative. *)
Theorem results_frame_defined
  (propensity_func : state -> list Q) (reactions : list (list Z))
  (max_time : Q) (prey predator : Z) (draws : list draw) (tr : trace) :
  (0 <= prey)%Z -> (0 <= predator)%Z ->
  gillespie_simulation propensity_func reactions max_time [prey; predator]
    draws = Return tr ->
  exists df,
    results_frame tr = Return df
    /\ Time df = fst tr
    /\ length (Prey df) = length (fst tr)
    /\ length (Predator df) = length (fst tr)
    /\ hd_error (Prey df) = Some prey
    /\ hd_error (Predator df) = Some predator
    /\ Forall (fun x => (0 <= x)%Z) (Prey df)
    /\ Forall (fun x => (0 <= x)%Z) (Predator df).
Proof.
  exact (frame_of_run propensity_func reactions max_time prey predator draws
           tr).
Qed.

Lemma results_frame_defined_witness :
  exists df,
    results_frame ([0; 10 # 64; 1070 # 2752; 1],
                   [[2; 1]; [3; 1]; [3; 0]; [3; 0]]%Z) = Return df
    /\ Time df = fst ([0; 10 # 64; 1070 # 2752; 1],
                      [[2; 1]; [3; 1]; [3; 0]; [3; 0]]%Z)
    /\ length (Prey df) = length (fst ([0; 10 # 64; 1070 # 2752; 1],
                                       [[2; 1]; [3; 1]; [3; 0]; [3; 0]]%Z))
    /\ length (Predator df)
       = length (fst ([0; 10 # 64; 1070 # 2752; 1],
                      [[2; 1]; [3; 1]; [3; 0]; [3; 0]]%Z))
    /\ hd_error (Prey df) = Some 2%Z
    /\ hd_error (Predator df) = Some 1%Z
    /\ Forall (fun x => (0 <= x)%Z) (Prey df)
    /\ Forall (fun x => (0 <= x)%Z) (Predator df).
Proof.
  apply (results_frame_defined predator_prey_propensities
           predator_prey_reactions 1 2 1 three_draws).
  - lia.
  - lia.
  - reflexivity.
Defined.

(** ** The colours of plot_multiple_simulations *)

Lemma opacity_defined (num_simulations i : nat) :
  (i < num_simulations)%nat ->
  opacity num_simulations i
  = Return ((1 # 2) + ((1 # 2) * inject_Z (Z.of_nat i))
                      / inject_Z (Z.of_nat num_simulations)).
Proof.
  intro Hi. unfold opacity, divide.
  destruct (Qeq_bool (inject_Z (Z.of_nat num_simulations)) 0) eqn:E;
    [|reflexivity].
  apply Qeq_bool_iff in E. unfold Qeq in E. simpl in E. lia.
Qed.

Lemma for_each_defined {A B : Type} (f : A -> outcome B) (g : A -> B)
  (l : list A) :
  Forall (fun a => f a = Return (g a)) l -> for_each f l = Return (map g l).
Proof.
  induction 1 as [|a l Ha _ IH]; cbn; [reflexivity|].
  now rewrite Ha, IH.
Qed.

Lemma opacity_bounds (n i : nat) :
  (i < n)%nat ->
  1 # 2 <= (1 # 2) + ((1 # 2) * inject_Z (Z.of_nat i)) / inject_Z (Z.of_nat n)
  /\ (1 # 2) + ((1 # 2) * inject_Z (Z.of_nat i)) / inject_Z (Z.of_nat n) < 1.
Proof.
  intro Hi.
  assert (Hn : 0 < inject_Z (Z.of_nat n)) by (unfold Qlt; simpl; lia).
  assert (H0 : 0 <= inject_Z (Z.of_nat i)) by (unfold Qle; simpl; lia).
  assert (Hlt : inject_Z (Z.of_nat i) < inject_Z (Z.of_nat n))
    by (unfold Qlt; simpl; lia).
  split.
  - assert (0 <= ((1 # 2) * inject_Z (Z.of_nat i)) / inject_Z (Z.of_nat n)).
    { apply Qle_shift_div_l; [assumption|]. lra. }
    lra.
  - assert (((1 # 2) * inject_Z (Z.of_nat i)) / inject_Z (Z.of_nat n)
            < 1 # 2).
    { apply Qlt_shift_div_r; [assumption|]. lra. }
    lra.
Qed.

Lemma opacity_increasing (n i j : nat) :
  (0 < n)%nat -> (i < j)%nat ->
  (1 # 2) + ((1 # 2) * inject_Z (Z.of_nat i)) / inject_Z (Z.of_nat n)
  < (1 # 2) + ((1 # 2) * inject_Z (Z.of_nat j)) / inject_Z (Z.of_nat n).
Proof.
  intros Hn Hij.
  assert (Hq : 0 < / inject_Z (Z.of_nat n)).
  { apply Qinv_lt_0_compat. unfold Qlt; simpl; lia. }
  assert (Hlt : (1 # 2) * inject_Z (Z.of_nat i)
                < (1 # 2) * inject_Z (Z.of_nat j)).
  { assert (inject_Z (Z.of_nat i) < inject_Z (Z.of_nat j))
      by (unfold Qlt; simpl; lia).
    lra. }
  apply Qplus_lt_r. unfold Qdiv. now apply Qmult_lt_compat_r.
Qed.

Lemma map_seq_increasing (g : nat -> Q) (n : nat) :
  (forall i j, (i < j)%nat -> (j < n)%nat -> g i < g j) ->
  forall m k, (k + m <= n)%nat -> StronglySorted Qlt (map g (seq k m)).
Proof.
  intros Hg m. induction m as [|m IH]; intros k Hk; cbn; constructor.
  - apply IH. lia.
  - apply Forall_map, Forall_forall. intros j Hj. apply in_seq in Hj.
    apply Hg; lia.
Qed.

(** X10: for any number of runs, zero included, the colour list of
    plot_multiple_simulations is built without a division by zero; it has one
    opacity per run, each at least 1/2 and strictly below 1, strictly
    increasing with the index of the run. *)
Theorem colors_opacities (num_simulations : nat) :
  exists l,
    colors num_simulations = Return l
    /\ length l = num_simulations
    /\ Forall (fun a => 1 # 2 <= a /\ a < 1) l
    /\ StronglySorted Qlt l.
Proof.
  set (g := fun i : nat =>
              (1 # 2) + ((1 # 2) * inject_Z (Z.of_nat i))
                        / inject_Z (Z.of_nat num_simulations)).
  exists (map g (seq 0 num_simulations)). repeat split.
  - unfold colors. apply for_each_defined. apply Forall_forall.
    intros i Hi. apply in_seq in Hi. apply opacity_defined. lia.
  - now rewrite length_map, length_seq.
  - apply Forall_map, Forall_forall. intros i Hi. apply in_seq in Hi.
    apply opacity_bounds. lia.
  - apply map_seq_increasing with num_simulations; [|lia].
    intros i j Hij Hj. apply opacity_increasing; lia.
Qed.
